(** * A shallow embedding of [src/src/matrix.rs]

    The Rust crate defines a dense row-major [Matrix<T>], a naive
    triple-loop [multiply], and [Display] / [Debug] implementations.

    Modelling choices:
    - A [usize] value is a [nat]; the arithmetic [multiply] performs on
      [usize] ([a.rows * b.cols] and the flat indices) goes through
      [usize_mul] and [usize_add], which leave the range [0, usize::MAX]
      only as Rust does: with overflow checks (Cargo's [dev] and [test]
      profiles) an overflow panics, without them ([release]) it wraps
      modulo 2^64. The profile is the class [BuildProfile]; a theorem that
      binds it holds for both.
    - [vec![x; n]] panics with a capacity overflow when its buffer would
      exceed [isize::MAX] bytes; that the allocator then finds the memory
      is assumed (exhausting memory aborts the process, it does not
      return).
    - A [Vec] holds at most [usize::MAX] elements ([usize_fits] of its
      length); the theorems that need this say so.
    - Rust's fallible results and panics are one small monad [outcome]:
      [Ok] is [Ok(..)], [Err msg] is an [anyhow::Error] whose message is
      [msg], and [Panic] is a panic (out-of-bounds index, arithmetic
      overflow or capacity overflow).
    - The trait bounds of the element type are type classes:
      [RustNum] (Copy + Mul + AddAssign + Default, with [size_of::<T>()]),
      [RustDebug] and [RustDisplay].
    - [for i in 0..n { body }] is [for_range n body]. *)

From stdpp Require Import base list strings pretty.
From Stdlib Require Import ZArith Ascii.
From Stdlib Require Import List.

Open Scope string_scope.

(** ** The outcome monad: [Ok], an [anyhow] error, or a panic *)

Inductive outcome (A : Type) : Type :=
| Ok (x : A)
| Err (msg : string)
| Panic.
Arguments Ok {A} x.
Arguments Err {A} msg.
Arguments Panic {A}.

#[global] Instance outcome_ret : MRet outcome := fun A x => Ok x.
#[global] Instance outcome_bind : MBind outcome := fun A B f m =>
  match m with
  | Ok x => f x
  | Err e => Err e
  | Panic => Panic
  end.

(** [for k in 0..n { body(k) }], the loop state threaded explicitly; the
    first failing iteration stops the loop. *)
Definition for_range {S : Type} (n : nat) (body : nat -> S -> outcome S)
    (s : S) : outcome S :=
  fold_left (fun acc k => acc ≫= body k) (seq 0 n) (mret s).

(** ** Vec indexing: [v[n]] panics out of range *)

Definition vec_index {T : Type} (v : list T) (n : nat) : outcome T :=
  match v !! n with
  | Some x => Ok x
  | None => Panic
  end.

(** [v[n] = x]: [IndexMut] panics out of range (stdpp's insert would do
    nothing there). *)
Definition vec_set {T : Type} (v : list T) (n : nat) (x : T) : outcome (list T) :=
  if decide (n < length v) then Ok (<[n:=x]> v) else Panic.

(** ** Element traits *)

(** [T: Copy + Mul<Output = T> + Add<Output = T> + AddAssign + Default];
    [t_add_assign acc x] is the value of [acc] after [acc += x]. The
    element operations are modelled as total functions: an element type
    whose [*] or [+=] can panic (such as [i32] overflowing with overflow
    checks on) is outside this model, and a [Panic] of [multiply] always
    comes from [usize] arithmetic, the allocation or an index. *)
Class RustNum (T : Type) := {
  t_default : T;
  t_mul : T -> T -> T;
  t_add : T -> T -> T;
  t_add_assign : T -> T -> T;
  t_size : nat (* [size_of::<T>()] *)
}.

(** ** [usize] arithmetic and the build profile *)

Definition usize_max : N := (2 ^ 64 - 1)%N.
Definition isize_max : N := (2 ^ 63 - 1)%N.

Definition usize_fits (n : nat) : Prop := (N.of_nat n <= usize_max)%N.

(** [overflow-checks] of the Cargo profile: on in [dev] and [test] (the
    profiles of [cargo run] and [cargo test]), off in [release]. *)
Class BuildProfile := overflow_checks : bool.
#[global] Instance dev_profile : BuildProfile := true.

(** [x * y] on [usize]. *)
Definition usize_mul {prof : BuildProfile} (x y : nat) : outcome nat :=
  let r := (N.of_nat x * N.of_nat y)%N in
  if decide (r <= usize_max)%N then Ok (x * y)
  else if overflow_checks then Panic else Ok (N.to_nat (r mod 2 ^ 64)).

(** [x + y] on [usize]. *)
Definition usize_add {prof : BuildProfile} (x y : nat) : outcome nat :=
  let r := (N.of_nat x + N.of_nat y)%N in
  if decide (r <= usize_max)%N then Ok (x + y)
  else if overflow_checks then Panic else Ok (N.to_nat (r mod 2 ^ 64)).

(** The flat index [i * c + j] on [usize]. *)
Definition flat_index {prof : BuildProfile} (i c j : nat) : outcome nat :=
  p ← usize_mul i c; usize_add p j.

(** [vec![x; n]]: [RawVec] refuses a buffer of more than [isize::MAX]
    bytes with a capacity-overflow panic (a zero-sized [T] needs none). *)
Definition capacity_fits (T : Type) `{RustNum T} (n : nat) : Prop :=
  (N.of_nat n * N.of_nat t_size <= isize_max)%N.

Definition vec_from_elem {T : Type} `{RustNum T} (x : T) (n : nat) : outcome (list T) :=
  if decide (N.of_nat n * N.of_nat t_size <= isize_max)%N then Ok (replicate n x) else Panic.

(** [T: fmt::Debug], the [{:?}] rendering. *)
Class RustDebug (T : Type) := fmt_debug : T -> string.

(** [T: fmt::Display], the [{}] rendering. *)
Class RustDisplay (T : Type) := fmt_display : T -> string.

(** ** [struct Matrix<T>] *)

Record Matrix (T : Type) := mkMatrix {
  rows : nat;
  cols : nat;
  data : list T
}.
Arguments mkMatrix {T} rows cols data.
Arguments rows {T} m.
Arguments cols {T} m.
Arguments data {T} m.

(** [Matrix::new]: stores its arguments, no validation. *)
Definition new {T : Type} (rows cols : nat) (data : list T) : Matrix T :=
  mkMatrix rows cols data.

(** The message of the [anyhow!] error of [multiply]; [{}] on [usize]
    is its decimal rendering. *)
Definition dim_msg (ar ac br bc : nat) : string :=
  "Cannot multiply matrices with dimensions " +:+ pretty ar +:+ "x"
    +:+ pretty ac +:+ " and " +:+ pretty br +:+ "x" +:+ pretty bc.

(** [multiply] (lines 13-41). [vec![T::default(); a.rows * b.cols]]
    multiplies on [usize], then allocates. In
    [result[i * b.cols + j] += a.data[i * a.cols + k] * b.data[k * b.cols + j]]
    the element type is generic, so the statement is
    [AddAssign::add_assign(&mut result[..], ..)]: the assigned place is
    evaluated (and bounds-checked) first, then the right-hand side reads
    both operands, then the accumulator is updated. *)
Definition multiply {prof : BuildProfile} {T : Type} `{RustNum T} (a b : Matrix T)
    : outcome (Matrix T) :=
  if decide (cols a ≠ rows b) then
    Err (dim_msg (rows a) (cols a) (rows b) (cols b))
  else
    n ← usize_mul (rows a) (cols b);
    result ← vec_from_elem t_default n;
    result ← for_range (rows a) (fun i result =>
      for_range (cols b) (fun j result =>
        for_range (cols a) (fun k result =>
          r ← flat_index i (cols b) j;
          cur ← vec_index result r;
          p ← flat_index i (cols a) k;
          x ← vec_index (data a) p;
          q ← flat_index k (cols b) j;
          y ← vec_index (data b) q;
          vec_set result r (t_add_assign cur (t_mul x y)))
        result)
      result)
      result;
    mret (mkMatrix (rows a) (cols b) result).

(** [impl fmt::Display for Matrix<T>] (lines 53-71), rendering into a
    [String] (as [to_string] and [format!] do), a sink whose [write_str]
    never fails, so the [?] after each [write!] never returns early.
    Elements are written with [{:?}]. The indices [i * cols + j] are taken
    in increasing order [0, 1, 2, ..]: while they stay below the buffer's
    length they fit in [usize], and the first one that does not is the
    length itself, which fits too and panics as an out-of-bounds index; so
    unbounded [nat] arithmetic renders the same in every profile.
    [cols - 1] and [rows - 1] are evaluated only inside a non-empty loop,
    where they do not underflow. *)
Definition matrix_display {T : Type} `{RustDebug T} (m : Matrix T) : outcome string :=
  for_range (rows m) (fun i s =>
    let s := s +:+ "{" in
    s ← for_range (cols m) (fun j s =>
      x ← vec_index (data m) (i * cols m + j);
      let s := s +:+ fmt_debug x in
      mret (if decide (j < cols m - 1) then s +:+ " " else s)) s;
    let s := s +:+ "}" in
    mret (if decide (i < rows m - 1) then s +:+ ", " else s)) "".

(** [impl fmt::Debug for Matrix<T>] (lines 73-84): the [{}] argument is
    the matrix itself, i.e. its [Display] rendering. *)
Definition matrix_debug {T : Type} `{RustDisplay T} `{RustDebug T} (m : Matrix T)
    : outcome string :=
  d ← matrix_display m;
  mret ("Matrix(rows=" +:+ pretty (rows m) +:+ ", cols=" +:+ pretty (cols m)
        +:+ ", " +:+ d +:+ ")").

(** ** Element types used by the tests *)

(** [i32], the type of the integer literals of the tests: arithmetic
    wraps modulo 2^32 (release semantics; a debug build panics instead,
    which the tests' small values never trigger). *)
Definition wrap_i32 (z : Z) : Z := ((z + 2 ^ 31) mod 2 ^ 32 - 2 ^ 31)%Z.

#[global] Instance i32_num : RustNum Z := {
  t_default := 0%Z;
  t_mul x y := wrap_i32 (x * y);
  t_add x y := wrap_i32 (x + y);
  t_add_assign acc x := wrap_i32 (acc + x);
  t_size := 4
}.
(** [Debug] and [Display] of [i32] are both the decimal rendering. *)
#[global] Instance i32_debug : RustDebug Z := fun z => pretty z.
#[global] Instance i32_display : RustDisplay Z := fun z => pretty z.

Definition ex_a : Matrix Z := new 2 3 [1; 2; 3; 4; 5; 6]%Z.
Definition ex_b : Matrix Z := new 3 2 [1; 2; 3; 4; 5; 6]%Z.

Example ex_display : matrix_display ex_a = Ok "{1 2 3}, {4 5 6}".
Proof. vm_compute. reflexivity. Qed.
Example ex_mul : (m ← multiply ex_a ex_b; matrix_display m) = Ok "{22 28}, {49 64}".
Proof. vm_compute. reflexivity. Qed.
Example ex_debug : matrix_debug ex_a = Ok "Matrix(rows=2, cols=3, {1 2 3}, {4 5 6})".
Proof. vm_compute. reflexivity. Qed.
Example ex_err : multiply ex_a ex_a = Err "Cannot multiply matrices with dimensions 2x3 and 2x3".
Proof. vm_compute. reflexivity. Qed.

Close Scope string_scope.

(** ** The closed forms the proofs compare [multiply] against *)

(** The accumulated element [(i, j)] of [a * b]: an accumulator started at
    [T::default()] and updated by [acc += a[i,k] * b[k,j]] for
    [k = 0 .. n-1], in that order, with row-major flat indices. *)
Definition dot_upto {T : Type} `{RustNum T} (a b : Matrix T) (i j n : nat) (acc : T) : T :=
  fold_left (fun acc k =>
    t_add_assign acc (t_mul (nth (i * cols a + k) (data a) t_default)
                            (nth (k * cols b + j) (data b) t_default)))
    (seq 0 n) acc.

Definition element_sum {T : Type} `{RustNum T} (a b : Matrix T) (i j : nat) : T :=
  dot_upto a b i j (cols a) t_default.

(** Row [i] of the product, its first [n] elements. *)
Definition row_prefix {T : Type} `{RustNum T} (a b : Matrix T) (i n : nat) : list T :=
  (fun j => element_sum a b i j) <$> seq 0 n.

(** The first [n] rows of the product, flattened row-major. *)
Definition rows_prefix {T : Type} `{RustNum T} (a b : Matrix T) (n : nat) : list T :=
  mjoin ((fun i => row_prefix a b i (cols b)) <$> seq 0 n).

(** ** Loop lemmas *)

Lemma for_range_0 {St : Type} (body : nat -> St -> outcome St) s :
  for_range 0 body s = Ok s.
Proof. reflexivity. Qed.

Lemma for_range_S {St : Type} n (body : nat -> St -> outcome St) s :
  for_range (S n) body s = for_range n body s ≫= body n.
Proof. unfold for_range. rewrite seq_S, fold_left_app. reflexivity. Qed.

Lemma vec_index_middle {T : Type} (pre post : list T) (c : T) :
  vec_index (pre ++ c :: post) (length pre) = Ok c.
Proof. unfold vec_index. rewrite list_lookup_middle by reflexivity. reflexivity. Qed.

Lemma insert_middle {T : Type} (pre post : list T) (c v : T) :
  <[length pre := v]> (pre ++ c :: post) = pre ++ v :: post.
Proof.
  rewrite <- (Nat.add_0_r (length pre)), insert_app_r. reflexivity.
Qed.

(** ** [usize] arithmetic that stays in range *)

Lemma usize_fits_le n m : n <= m -> usize_fits m -> usize_fits n.
Proof. unfold usize_fits. lia. Qed.

Lemma flat_lt i r c j : i < r -> j < c -> i * c + j < r * c.
Proof. intros Hi Hj. assert (S i * c <= r * c) by (apply Nat.mul_le_mono_r; lia). simpl in *. lia. Qed.

Lemma usize_mul_fits {prof : BuildProfile} x y :
  usize_fits (x * y) -> usize_mul x y = Ok (x * y).
Proof. unfold usize_fits, usize_mul. intros F. rewrite decide_True by lia. reflexivity. Qed.

Lemma usize_add_fits {prof : BuildProfile} x y :
  usize_fits (x + y) -> usize_add x y = Ok (x + y).
Proof. unfold usize_fits, usize_add. intros F. rewrite decide_True by lia. reflexivity. Qed.

Lemma flat_index_fits {prof : BuildProfile} i c j :
  usize_fits (i * c + j) -> flat_index i c j = Ok (i * c + j).
Proof.
  intros F. unfold flat_index. rewrite usize_mul_fits by (eapply usize_fits_le; [|exact F]; lia).
  cbn [mbind outcome_bind]. apply usize_add_fits. exact F.
Qed.

(** With overflow checks, an overflowing product panics. *)
Lemma usize_mul_overflow {prof : BuildProfile} x y :
  overflow_checks = true -> ~ usize_fits (x * y) -> usize_mul x y = Panic.
Proof.
  unfold usize_fits, usize_mul. intros Hc F. rewrite decide_False by lia.
  rewrite Hc. reflexivity.
Qed.

(** A successful product is the exact one when it fits, and it always
    fits when overflow checks are on. *)
Lemma usize_mul_ok {prof : BuildProfile} x y n :
  usize_mul x y = Ok n ->
  (usize_fits (x * y) -> n = x * y) /\ (overflow_checks = true -> usize_fits (x * y)).
Proof.
  intros E. split.
  - intros F. rewrite usize_mul_fits in E by exact F. injection E. auto.
  - intros Hc. destruct (decide (usize_fits (x * y))) as [F|F]; [exact F|].
    rewrite usize_mul_overflow in E by assumption. discriminate.
Qed.

Lemma vec_from_elem_fits {T : Type} `{RustNum T} (x : T) n :
  capacity_fits T n -> vec_from_elem x n = Ok (replicate n x).
Proof. unfold capacity_fits, vec_from_elem. intros F. rewrite decide_True by exact F. reflexivity. Qed.

Lemma vec_from_elem_ok {T : Type} `{RustNum T} (x : T) n l :
  vec_from_elem x n = Ok l -> capacity_fits T n /\ l = replicate n x.
Proof. unfold capacity_fits, vec_from_elem. case_decide; intros E; [|discriminate]. injection E. auto. Qed.

Lemma vec_from_elem_overflow {T : Type} `{RustNum T} (x : T) n :
  ~ capacity_fits T n -> vec_from_elem x n = Panic.
Proof. unfold capacity_fits, vec_from_elem. intros F. rewrite decide_False by exact F. reflexivity. Qed.

(** The result buffer of [a * b]: [a.rows * b.cols] fits in [usize] and its
    bytes within [isize::MAX]. *)
Definition result_fits {T : Type} `{RustNum T} (a b : Matrix T) : Prop :=
  usize_fits (rows a * cols b) /\ capacity_fits T (rows a * cols b).

Lemma mbind_no_err {A B : Type} (m : outcome A) (f : A -> outcome B) :
  (forall e, m <> Err e) -> (forall x e, f x <> Err e) -> forall e, (m ≫= f) <> Err e.
Proof. intros Hm Hf e. destruct m as [x|e'|]; cbn; [apply Hf|exfalso; exact (Hm e' eq_refl)|discriminate]. Qed.

Lemma usize_mul_no_err {prof : BuildProfile} x y e : usize_mul x y <> Err e.
Proof. unfold usize_mul. repeat case_match; discriminate. Qed.

Lemma usize_add_no_err {prof : BuildProfile} x y e : usize_add x y <> Err e.
Proof. unfold usize_add. repeat case_match; discriminate. Qed.

Lemma flat_index_no_err {prof : BuildProfile} i c j e : flat_index i c j <> Err e.
Proof. apply mbind_no_err; [apply usize_mul_no_err|]. intros. apply usize_add_no_err. Qed.

Lemma vec_index_no_err {T : Type} (v : list T) n e : vec_index v n <> Err e.
Proof. unfold vec_index. case_match; discriminate. Qed.

Lemma vec_set_no_err {T : Type} (v : list T) n x e : vec_set v n x <> Err e.
Proof. unfold vec_set. case_match; discriminate. Qed.

Lemma vec_from_elem_no_err {T : Type} `{RustNum T} (x : T) n e : vec_from_elem x n <> Err e.
Proof. unfold vec_from_elem. case_match; discriminate. Qed.

Section MultiplyLoops.
Context {prof : BuildProfile} {T : Type} `{RustNum T} (a b : Matrix T).

Definition k_body (i j k : nat) (result : list T) : outcome (list T) :=
  r ← flat_index i (cols b) j;
  cur ← vec_index result r;
  p ← flat_index i (cols a) k;
  x ← vec_index (data a) p;
  q ← flat_index k (cols b) j;
  y ← vec_index (data b) q;
  vec_set result r (t_add_assign cur (t_mul x y)).

Definition j_body (i j : nat) (result : list T) : outcome (list T) :=
  for_range (cols a) (k_body i j) result.

Definition i_body (i : nat) (result : list T) : outcome (list T) :=
  for_range (cols b) (j_body i) result.

Lemma multiply_unfold :
  cols a = rows b ->
  multiply a b =
    (n ← usize_mul (rows a) (cols b);
     result ← vec_from_elem t_default n;
     result ← for_range (rows a) i_body result;
     mret (mkMatrix (rows a) (cols b) result)).
Proof.
  intros Hd. unfold multiply. rewrite decide_False by (intros Hn; exact (Hn Hd)).
  reflexivity.
Qed.

(** What a successful step of the [k] loop has done. *)
Lemma k_body_ok i j k result result' :
  k_body i j k result = Ok result' ->
  exists r cur p x q y,
    flat_index i (cols b) j = Ok r /\ result !! r = Some cur /\
    flat_index i (cols a) k = Ok p /\ data a !! p = Some x /\
    flat_index k (cols b) j = Ok q /\ data b !! q = Some y /\
    vec_set result r (t_add_assign cur (t_mul x y)) = Ok result'.
Proof.
  unfold k_body, vec_index. intros E.
  destruct (flat_index i (cols b) j) as [r| |] eqn:E1; cbn [mbind outcome_bind] in E; try discriminate.
  destruct (result !! r) as [cur|] eqn:E2; cbn [mbind outcome_bind] in E; try discriminate.
  destruct (flat_index i (cols a) k) as [p| |] eqn:E3; cbn [mbind outcome_bind] in E; try discriminate.
  destruct (data a !! p) as [x|] eqn:E4; cbn [mbind outcome_bind] in E; try discriminate.
  destruct (flat_index k (cols b) j) as [q| |] eqn:E5; cbn [mbind outcome_bind] in E; try discriminate.
  destruct (data b !! q) as [y|] eqn:E6; cbn [mbind outcome_bind] in E; try discriminate.
  exists r, cur, p, x, q, y. repeat split; assumption.
Qed.

Lemma k_body_no_err i j k result e : k_body i j k result <> Err e.
Proof.
  unfold k_body.
  repeat (apply mbind_no_err; [first [apply flat_index_no_err | apply vec_index_no_err]|intros ?]).
  apply vec_set_no_err.
Qed.

Hypothesis Hdim : cols a = rows b.
Hypothesis Ha : rows a * cols a <= length (data a).
Hypothesis Hb : rows b * cols b <= length (data b).
Hypothesis La : usize_fits (length (data a)).
Hypothesis Lb : usize_fits (length (data b)).
Hypothesis Hfit : result_fits a b.

Lemma vec_index_a i k :
  i < rows a -> k < cols a ->
  vec_index (data a) (i * cols a + k) = Ok (nth (i * cols a + k) (data a) t_default).
Proof.
  intros Hi Hk. unfold vec_index.
  destruct (nth_lookup_or_length (data a) (i * cols a + k) t_default) as [E|E].
  - rewrite E. reflexivity.
  - exfalso. nia.
Qed.

Lemma vec_index_b k j :
  k < rows b -> j < cols b ->
  vec_index (data b) (k * cols b + j) = Ok (nth (k * cols b + j) (data b) t_default).
Proof.
  intros Hk Hj. unfold vec_index.
  destruct (nth_lookup_or_length (data b) (k * cols b + j) t_default) as [E|E].
  - rewrite E. reflexivity.
  - exfalso. nia.
Qed.

(** The [k] loop only touches the accumulator [result[i * b.cols + j]]. *)
Lemma k_loop i j n (pre post : list T) (cur : T) :
  i < rows a -> j < cols b -> n <= cols a -> length pre = i * cols b + j ->
  for_range n (k_body i j) (pre ++ cur :: post)
  = Ok (pre ++ dot_upto a b i j n cur :: post).
Proof.
  intros Hi Hj. destruct Hfit as [F _]. induction n as [|n IH]; intros Hn Hpre.
  - reflexivity.
  - rewrite for_range_S, IH by lia. cbn [mbind outcome_bind].
    unfold k_body. rewrite (flat_index_fits i (cols b) j)
      by (eapply usize_fits_le; [|exact F]; pose proof (flat_lt i (rows a) (cols b) j Hi Hj); lia).
    cbn [mbind outcome_bind].
    rewrite <- Hpre, vec_index_middle.
    cbn [mbind outcome_bind].
    rewrite (flat_index_fits i (cols a) n)
      by (eapply usize_fits_le; [|exact La]; pose proof (flat_lt i (rows a) (cols a) n Hi ltac:(lia)); lia).
    cbn [mbind outcome_bind]. rewrite vec_index_a by lia. cbn [mbind outcome_bind].
    rewrite (flat_index_fits n (cols b) j)
      by (eapply usize_fits_le; [|exact Lb]; pose proof (flat_lt n (rows b) (cols b) j ltac:(lia) Hj); lia).
    cbn [mbind outcome_bind]. rewrite vec_index_b by lia. cbn [mbind outcome_bind].
    unfold vec_set. rewrite decide_True by (rewrite length_app; simpl; lia).
    rewrite insert_middle.
    unfold dot_upto. rewrite seq_S, fold_left_app. reflexivity.
Qed.

Lemma length_row_prefix i n : length (row_prefix a b i n) = n.
Proof. unfold row_prefix. rewrite length_fmap, length_seq. reflexivity. Qed.

Lemma j_loop i n (pre : list T) (rest : nat) :
  i < rows a -> n <= cols b -> length pre = i * cols b ->
  for_range n (j_body i) (pre ++ replicate (cols b + rest) t_default)
  = Ok (pre ++ row_prefix a b i n ++ replicate (cols b - n + rest) t_default).
Proof.
  intros Hi. induction n as [|n IH]; intros Hn Hpre.
  - rewrite for_range_0, Nat.sub_0_r. reflexivity.
  - rewrite for_range_S, IH by lia. cbn [mbind outcome_bind].
    replace (cols b - n + rest) with (S (cols b - S n + rest)) by lia.
    simpl replicate. rewrite app_assoc. unfold j_body.
    rewrite k_loop by (try rewrite length_app, length_row_prefix; lia).
    unfold row_prefix. rewrite seq_S, fmap_app. simpl.
    rewrite <- !app_assoc. reflexivity.
Qed.

Lemma length_rows_prefix n : length (rows_prefix a b n) = n * cols b.
Proof.
  induction n as [|n IH]; [reflexivity|].
  unfold rows_prefix in *. rewrite seq_S, fmap_app, join_app, length_app, IH.
  simpl. rewrite app_nil_r, length_row_prefix. lia.
Qed.

Lemma i_loop n :
  n <= rows a ->
  for_range n i_body (replicate (rows a * cols b) t_default)
  = Ok (rows_prefix a b n ++ replicate ((rows a - n) * cols b) t_default).
Proof.
  induction n as [|n IH]; intros Hn.
  - rewrite for_range_0, Nat.sub_0_r. reflexivity.
  - rewrite for_range_S, IH by lia. cbn [mbind outcome_bind].
    replace ((rows a - n) * cols b) with (cols b + (rows a - S n) * cols b) by nia.
    unfold i_body. rewrite j_loop by (try rewrite length_rows_prefix; lia).
    rewrite Nat.sub_diag, Nat.add_0_l.
    unfold rows_prefix. rewrite seq_S, fmap_app, join_app. simpl.
    rewrite app_nil_r, <- app_assoc. reflexivity.
Qed.

Lemma multiply_ok :
  multiply a b = Ok (mkMatrix (rows a) (cols b) (rows_prefix a b (rows a))).
Proof.
  destruct Hfit as [F C].
  rewrite multiply_unfold by exact Hdim. rewrite usize_mul_fits by exact F.
  cbn [mbind outcome_bind]. rewrite vec_from_elem_fits by exact C.
  cbn [mbind outcome_bind]. rewrite i_loop by lia.
  rewrite Nat.sub_diag. simpl. rewrite app_nil_r. reflexivity.
Qed.

End MultiplyLoops.

Lemma for_range_preserves {St : Type} (P : St -> Prop) n (body : nat -> St -> outcome St) s s' :
  (forall k x y, body k x = Ok y -> P x -> P y) ->
  P s -> for_range n body s = Ok s' -> P s'.
Proof.
  intros Hbody Hs. revert s'. induction n as [|n IH]; intros s' Hrun.
  - rewrite for_range_0 in Hrun. injection Hrun as <-. exact Hs.
  - rewrite for_range_S in Hrun.
    destruct (for_range n body s) as [x| |] eqn:E; cbn in Hrun; try discriminate.
    eapply Hbody; [exact Hrun|]. apply IH. reflexivity.
Qed.

Lemma for_range_id {St : Type} n (body : nat -> St -> outcome St) s :
  (forall k x, body k x = Ok x) -> for_range n body s = Ok s.
Proof.
  intros Hbody. induction n as [|n IH]; [reflexivity|].
  rewrite for_range_S, IH. apply Hbody.
Qed.

Lemma for_range_no_err {St : Type} n (body : nat -> St -> outcome St) s e :
  (forall k x e', body k x <> Err e') -> for_range n body s <> Err e.
Proof.
  intros Hbody. revert e. induction n as [|n IH]; intros e; [discriminate|].
  rewrite for_range_S. destruct (for_range n body s) as [x|e'|] eqn:E; cbn.
  - apply Hbody.
  - exfalso. exact (IH e' eq_refl).
  - discriminate.
Qed.

Lemma vec_set_length {T : Type} (v v' : list T) n x :
  vec_set v n x = Ok v' -> length v' = length v.
Proof.
  unfold vec_set. case_decide; intros E; [|discriminate].
  injection E as <-. apply length_insert.
Qed.

(** Every [Ok] result of [multiply] has the shape [(a.rows, b.cols)] and a
    buffer of the length [usize_mul] computed, whatever the operands'
    buffers. *)
Lemma multiply_ok_inv {prof : BuildProfile} {T : Type} `{RustNum T} (a b m : Matrix T) :
  multiply a b = Ok m ->
  rows m = rows a /\ cols m = cols b /\
  usize_mul (rows a) (cols b) = Ok (length (data m)) /\
  capacity_fits T (length (data m)).
Proof.
  intros E. assert (Hd : cols a = rows b).
  { unfold multiply in E. case_decide; [discriminate|]. destruct (decide (cols a = rows b)); tauto. }
  rewrite multiply_unfold in E by exact Hd.
  destruct (usize_mul (rows a) (cols b)) as [n| |] eqn:En; cbn in E; try discriminate.
  destruct (vec_from_elem t_default n) as [res0| |] eqn:Ev; cbn in E; try discriminate.
  apply vec_from_elem_ok in Ev as [Cn ->].
  destruct (for_range (rows a) _ _) as [res| |] eqn:Er; cbn in E; try discriminate.
  injection E as <-. simpl.
  assert (length res = n) as ->; [|auto].
  refine (for_range_preserves (fun l => length l = n) _ _ _ _ _ _ Er);
    [|apply length_replicate].
  intros i x y Hi Hx.
  refine (for_range_preserves (fun l => length l = n) _ _ _ _ _ _ Hi); [|exact Hx].
  intros j x' y' Hj Hx'.
  refine (for_range_preserves (fun l => length l = n) _ _ _ _ _ _ Hj); [|exact Hx'].
  intros k x'' y'' Hk Hx''.
  destruct (k_body_ok a b i j k x'' y'' Hk) as (? & ? & ? & ? & ? & ? & _ & _ & _ & _ & _ & _ & Hs).
  rewrite (vec_set_length _ _ _ _ Hs). exact Hx''.
Qed.

(** With overflow checks, [multiply] succeeds only when its result buffer
    fits; it is then exactly [a.rows * b.cols] long. *)
Lemma multiply_ok_fits {prof : BuildProfile} {T : Type} `{RustNum T} (a b m : Matrix T) :
  overflow_checks = true -> multiply a b = Ok m ->
  result_fits a b /\ length (data m) = rows a * cols b.
Proof.
  intros Hc E. destruct (multiply_ok_inv a b m E) as (_ & _ & Em & Cm).
  destruct (usize_mul_ok _ _ _ Em) as [Eq F]. specialize (F Hc).
  rewrite (Eq F) in Cm |- *. split; [split|]; auto.
Qed.

(** With overflow checks, a result buffer that does not fit makes the
    allocation [vec![T::default(); a.rows * b.cols]] panic, before any
    element is read. *)
Lemma multiply_alloc_panic {prof : BuildProfile} {T : Type} `{RustNum T} (a b : Matrix T) :
  overflow_checks = true -> ~ result_fits a b ->
  (n ← usize_mul (rows a) (cols b); vec_from_elem (t_default (T := T)) n) = Panic.
Proof.
  intros Hc Hf. destruct (decide (usize_fits (rows a * cols b))) as [F|F].
  - rewrite usize_mul_fits by exact F. cbn [mbind outcome_bind].
    apply vec_from_elem_overflow. intros C. apply Hf. split; assumption.
  - rewrite usize_mul_overflow by assumption. reflexivity.
Qed.

Lemma multiply_panic_of_alloc {prof : BuildProfile} {T : Type} `{RustNum T} (a b : Matrix T) :
  cols a = rows b ->
  (n ← usize_mul (rows a) (cols b); vec_from_elem (t_default (T := T)) n) = Panic ->
  multiply a b = Panic.
Proof.
  intros Hd E. rewrite multiply_unfold by exact Hd.
  destruct (usize_mul (rows a) (cols b)) as [n| |]; cbn in E |- *; try discriminate; [|reflexivity].
  rewrite E. reflexivity.
Qed.

(** [2^63] and [2^32] as [usize] values. Each is the [nat] whose [N]
    form is the power; the [nat] is sealed behind [Qed], so that no
    conversion unfolds it into its unary form. *)
Lemma two63_sig : { n : nat | N.of_nat n = (2 ^ 63)%N }.
Proof. exists (N.to_nat (2 ^ 63)). apply N2Nat.id. Qed.
Definition two63 : nat := proj1_sig two63_sig.

Lemma two32_sig : { n : nat | N.of_nat n = (2 ^ 32)%N }.
Proof. exists (N.to_nat (2 ^ 32)). apply N2Nat.id. Qed.
Definition two32 : nat := proj1_sig two32_sig.

(** The projections of [new] and [mkMatrix], as rewrite rules. *)
Lemma rows_new {T : Type} r c (d : list T) : rows (new r c d) = r.
Proof. reflexivity. Qed.
Lemma cols_new {T : Type} r c (d : list T) : cols (new r c d) = c.
Proof. reflexivity. Qed.
Lemma data_new {T : Type} r c (d : list T) : data (new r c d) = d.
Proof. reflexivity. Qed.
Lemma rows_mkMatrix {T : Type} r c (d : list T) : rows (mkMatrix r c d) = r.
Proof. reflexivity. Qed.
Lemma cols_mkMatrix {T : Type} r c (d : list T) : cols (mkMatrix r c d) = c.
Proof. reflexivity. Qed.
Lemma data_mkMatrix {T : Type} r c (d : list T) : data (mkMatrix r c d) = d.
Proof. reflexivity. Qed.

Lemma two63_N : N.of_nat two63 = (2 ^ 63)%N.
Proof. exact (proj2_sig two63_sig). Qed.

Lemma two32_N : N.of_nat two32 = (2 ^ 32)%N.
Proof. exact (proj2_sig two32_sig). Qed.

(** Without overflow checks, [a.rows * b.cols = 2^63 * 2] wraps to [0]:
    multiplying [new(2^63, 0, [])] by [new(0, 2, [])] returns a
    [2^63 x 2] matrix with an empty buffer. *)
Lemma multiply_release_wraps :
  multiply (prof := false) (new two63 0 ([] : list Z)) (new 0 2 []) = Ok (mkMatrix two63 2 []).
Proof.
  rewrite multiply_unfold by reflexivity. rewrite !rows_new, !cols_new.
  assert (usize_mul (prof := false) two63 2 = Ok 0) as ->.
  { unfold usize_mul. rewrite two63_N. rewrite decide_False by (unfold usize_max; lia).
    reflexivity. }
  cbn [mbind outcome_bind].
  rewrite vec_from_elem_fits by (unfold capacity_fits, isize_max; simpl; lia).
  cbn [mbind outcome_bind replicate].
  rewrite for_range_id; [reflexivity|].
  intros i x. unfold i_body. apply for_range_id. intros j y. reflexivity.
Qed.

(** ** C1: the elements of the product *)



Ltac solve_fits :=
  cbv [result_fits usize_fits capacity_fits usize_max isize_max];
  repeat split; vm_compute; congruence.


(** ** C6: the shape of the product *)

(** C6. Whenever [multiply a b] succeeds, its result has [a.rows] rows and
    [b.cols] columns (in every build profile). *)
Theorem multiply_shape {prof : BuildProfile} {T : Type} `{RustNum T} (a b m : Matrix T) :
  multiply a b = Ok m -> rows m = rows a /\ cols m = cols b.
Proof. intros E. destruct (multiply_ok_inv a b m E) as (? & ? & _). split; assumption. Qed.

Lemma multiply_shape_witness :
  exists m, multiply ex_a ex_b = Ok m /\ rows m = 2 /\ cols m = 2.
Proof.
  destruct (multiply ex_a ex_b) as [m| |] eqn:E; [|discriminate|discriminate].
  exists m. split; [reflexivity|].
  exact (multiply_shape ex_a ex_b m E).
Defined.

(** ** Decimal renderings are digit strings *)

Definition is_digit (c : ascii) : bool :=
  (48 <=? nat_of_ascii c) && (nat_of_ascii c <=? 57).

Fixpoint all_digits (s : string) : bool :=
  match s with
  | EmptyString => true
  | String c s' => is_digit c && all_digits s'
  end.

Lemma is_digit_pretty_N_char x : is_digit (pretty_N_char x) = true.
Proof. unfold pretty_N_char. repeat case_match; reflexivity. Qed.

Lemma all_digits_pretty_N_go x s :
  all_digits s = true -> all_digits (pretty_N_go x s) = true.
Proof.
  revert s. induction (N.lt_wf_0 x) as [x _ IH]; intros s Hs.
  destruct (decide (x = 0%N)) as [->|Hx]; [exact Hs|].
  rewrite pretty_N_go_step by lia. apply IH.
  - apply N.div_lt; lia.
  - simpl. rewrite is_digit_pretty_N_char. exact Hs.
Qed.

Lemma all_digits_pretty_nat (n : nat) : all_digits (pretty n) = true.
Proof.
  unfold pretty, pretty_nat, pretty, pretty_N. case_decide; [reflexivity|].
  apply all_digits_pretty_N_go. reflexivity.
Qed.

Lemma str_app_inv_l (p s1 s2 : string) : p +:+ s1 = p +:+ s2 -> s1 = s2.
Proof. induction p as [|c p IH]; simpl; [auto|]. intros E. injection E. exact IH. Qed.

(** A digit string followed by a non-digit delimiter splits uniquely. *)
Lemma digits_split (d1 d2 r1 r2 : string) (c : ascii) :
  all_digits d1 = true -> all_digits d2 = true -> is_digit c = false ->
  d1 +:+ String c r1 = d2 +:+ String c r2 -> d1 = d2 /\ r1 = r2.
Proof.
  revert d2. induction d1 as [|c1 d1 IH]; intros [|c2 d2] H1 H2 Hc E; simpl in *.
  - injection E. auto.
  - injection E as -> _. apply andb_prop in H2 as [H2 _]. congruence.
  - injection E as -> _. apply andb_prop in H1 as [H1 _]. congruence.
  - injection E as -> E. apply andb_prop in H1 as [_ H1]. apply andb_prop in H2 as [_ H2].
    destruct (IH d2 H1 H2 Hc E) as [-> ->]. auto.
Qed.

Lemma dim_msg_inj r1 c1 r2 c2 r1' c1' r2' c2' :
  dim_msg r1 c1 r2 c2 = dim_msg r1' c1' r2' c2' ->
  r1 = r1' /\ c1 = c1' /\ r2 = r2' /\ c2 = c2'.
Proof.
  unfold dim_msg. intros E. apply str_app_inv_l in E.
  apply digits_split in E as [E1 E]; try apply all_digits_pretty_nat; [|reflexivity].
  apply digits_split in E as [E2 E]; try apply all_digits_pretty_nat; [|reflexivity].
  apply (str_app_inv_l "and ") in E.
  apply digits_split in E as [E3 E4]; try apply all_digits_pretty_nat; [|reflexivity].
  apply (inj pretty) in E1, E2, E3, E4. auto.
Qed.

(** With matching inner dimensions, [multiply] never returns an error: its
    only [Err] is the dimension check. *)
Lemma multiply_matching_no_err {prof : BuildProfile} {T : Type} `{RustNum T} (a b : Matrix T) e :
  cols a = rows b -> multiply a b <> Err e.
Proof.
  intros Heq. rewrite multiply_unfold by exact Heq.
  apply mbind_no_err; [apply usize_mul_no_err|]. intros n.
  apply mbind_no_err; [apply vec_from_elem_no_err|]. intros res.
  apply mbind_no_err; [|intros x e'; unfold mret, outcome_ret; discriminate].
  intros e'. apply for_range_no_err. intros i x e1. apply for_range_no_err.
  intros j y e2. apply for_range_no_err. intros k z e3. apply k_body_no_err.
Qed.

(** ** C2: the dimension check *)

(** C2. [multiply a b] returns an [anyhow] error exactly when
    [a.cols <> b.rows]; its message is [dim_msg] of the four dimensions
    [a.rows], [a.cols], [b.rows], [b.cols], from which all four are
    recovered ([dim_msg] is injective); when [a.cols = b.rows] it returns no
    error at all (it succeeds or, on badly sized buffers, panics). *)
Theorem multiply_dimension_mismatch {prof : BuildProfile} {T : Type} `{RustNum T} (a b : Matrix T) :
  (cols a <> rows b -> multiply a b = Err (dim_msg (rows a) (cols a) (rows b) (cols b)))
  /\ (cols a = rows b -> forall e, multiply a b <> Err e)
  /\ (forall r1 c1 r2 c2 r1' c1' r2' c2',
        dim_msg r1 c1 r2 c2 = dim_msg r1' c1' r2' c2' ->
        r1 = r1' /\ c1 = c1' /\ r2 = r2' /\ c2 = c2').
Proof.
  split; [|split].
  - intros Hne. unfold multiply. rewrite decide_True by exact Hne. reflexivity.
  - intros Heq e. exact (multiply_matching_no_err a b e Heq).
  - exact dim_msg_inj.
Qed.

(** ** C7: the size invariant [len(data) == rows * cols] *)

(** C7, counterexample. [Matrix::new] does not establish the invariant:
    [new(2, 2, [1, 2])] is a matrix whose buffer holds 2 elements, not 4. *)
Lemma new_does_not_establish_invariant :
  let m := new 2 2 [1; 2]%Z in length (data m) <> rows m * cols m.
Proof. simpl. discriminate. Qed.

(** C7, amended. [Matrix::new] stores its arguments unvalidated, so the
    invariant holds for [new rows cols data] exactly when the caller supplied
    [rows * cols] elements. A successful [multiply] returns a matrix
    satisfying it, its buffer holding [a.rows * b.cols] elements, whenever
    that product fits in [usize]: always in a build with overflow checks,
    where [multiply] otherwise panics. Without overflow checks the product
    can wrap: [new(2^63, 0, [])] times [new(0, 2, [])] returns a [2^63 x 2]
    matrix with an empty buffer. *)
Theorem size_invariant {prof : BuildProfile} {T : Type} `{RustNum T} :
  (forall r c (d : list T),
     rows (new r c d) = r /\ cols (new r c d) = c /\ data (new r c d) = d /\
     (length (data (new r c d)) = rows (new r c d) * cols (new r c d) <-> length d = r * c))
  /\ (forall a b m : Matrix T, multiply a b = Ok m -> usize_fits (rows a * cols b) ->
        length (data m) = rows m * cols m /\ length (data m) = rows a * cols b)
  /\ (overflow_checks = true -> forall a b m : Matrix T, multiply a b = Ok m ->
        length (data m) = rows m * cols m /\ length (data m) = rows a * cols b)
  /\ (exists m, multiply (prof := false) (new two63 0 ([] : list Z)) (new 0 2 []) = Ok m /\
        length (data m) <> rows m * cols m).
Proof.
  assert (G : forall a b m : Matrix T, multiply a b = Ok m -> usize_fits (rows a * cols b) ->
            length (data m) = rows m * cols m /\ length (data m) = rows a * cols b).
  { intros a b m E F. destruct (multiply_ok_inv a b m E) as (Hr & Hc & Hl & _).
    destruct (usize_mul_ok _ _ _ Hl) as [Eq _]. rewrite Hr, Hc, (Eq F). split; reflexivity. }
  split; [|split; [exact G|split]].
  - intros r c d. simpl. tauto.
  - intros Hc a b m E. apply (G a b m E). exact (proj1 (proj1 (multiply_ok_fits a b m Hc E))).
  - exists (mkMatrix two63 2 []). split; [exact multiply_release_wraps|].
    rewrite data_mkMatrix, rows_mkMatrix, cols_mkMatrix. cbn [length].
    pose proof two63_N. lia.
Qed.

(** ** C8: the flat indices of [multiply] are in bounds *)

Lemma for_range_panic_mono {St : Type} m n (body : nat -> St -> outcome St) s :
  for_range m body s = Panic -> m <= n -> for_range n body s = Panic.
Proof.
  intros Hm Hle. induction Hle as [|n Hle IH]; [exact Hm|].
  rewrite for_range_S, IH. reflexivity.
Qed.

Lemma for_range_all_ok {St : Type} (P : St -> Prop) n (body : nat -> St -> outcome St) s :
  P s -> (forall k x, k < n -> P x -> exists y, body k x = Ok y /\ P y) ->
  exists s', for_range n body s = Ok s' /\ P s'.
Proof.
  intros Hs Hbody. induction n as [|n IH]; [exists s; split; [reflexivity|exact Hs]|].
  destruct IH as (x & Ex & Px); [intros k y Hk; apply Hbody; lia|].
  destruct (Hbody n x ltac:(lia) Px) as (y & Ey & Py).
  exists y. rewrite for_range_S, Ex. split; [exact Ey|exact Py].
Qed.

Lemma vec_index_lt {T : Type} (v : list T) n :
  n < length v -> exists x, vec_index v n = Ok x.
Proof.
  intros Hn. destruct (lookup_lt_is_Some_2 v n Hn) as [x Hx].
  exists x. unfold vec_index. rewrite Hx. reflexivity.
Qed.

Lemma vec_index_ge {T : Type} (v : list T) n :
  length v <= n -> vec_index v n = Panic.
Proof. intros Hn. unfold vec_index. rewrite lookup_ge_None_2 by exact Hn. reflexivity. Qed.

Lemma vec_set_lt {T : Type} (v : list T) n x :
  n < length v -> vec_set v n x = Ok (<[n:=x]> v).
Proof. intros Hn. unfold vec_set. rewrite decide_True by exact Hn. reflexivity. Qed.

(** The operands of the counterexample to C8. *)
Definition ex_oob_a : Matrix Z := new (two32 + 1) 1 (replicate (two32 + 1) 0%Z).
Definition ex_oob_b : Matrix Z := new 1 two32 (replicate two32 0%Z).

Lemma usize_mul_release_oob :
  usize_mul (prof := false) (two32 + 1) two32 = Ok two32.
Proof.
  unfold usize_mul. rewrite Nat2N.inj_add, two32_N.
  rewrite decide_False by (unfold usize_max; lia).
  change (@overflow_checks false) with false. cbv iota.
  f_equal. rewrite <- (Nat2N.id two32), two32_N. f_equal.
Qed.

(** Row [i = 0] of the release product runs to its end. *)
Lemma release_oob_row0 :
  exists s', i_body (prof := false) ex_oob_a ex_oob_b 0 (replicate two32 0%Z) = Ok s' /\
    length s' = two32.
Proof.
  pose proof two32_N as T32.
  unfold i_body, ex_oob_a, ex_oob_b. rewrite cols_new.
  apply (for_range_all_ok (fun x => length x = two32)); [apply length_replicate|].
  intros j x Hj Lx. unfold j_body. rewrite cols_new, for_range_S, for_range_0.
  cbn [mbind outcome_bind]. unfold k_body. rewrite !cols_new, !data_new.
  rewrite (flat_index_fits 0 two32 j) by (unfold usize_fits, usize_max; lia).
  cbn [mbind outcome_bind].
  destruct (vec_index_lt x (0 * two32 + j)) as [cur ->]; [lia|]. cbn [mbind outcome_bind].
  rewrite (flat_index_fits 0 1 0) by (unfold usize_fits, usize_max; lia).
  cbn [mbind outcome_bind].
  destruct (vec_index_lt (replicate (two32 + 1) 0%Z) (0 * 1 + 0)) as [y ->];
    [rewrite length_replicate; lia|]. cbn [mbind outcome_bind].
  destruct (vec_index_lt (replicate two32 0%Z) (0 * two32 + j)) as [z ->];
    [rewrite length_replicate; lia|]. cbn [mbind outcome_bind].
  rewrite vec_set_lt by lia. eexists. split; [reflexivity|].
  rewrite length_insert. exact Lx.
Qed.

(** Row [i = 1] writes [result[2^32]] first. *)
Lemma release_oob_row1 s' :
  length s' = two32 -> i_body (prof := false) ex_oob_a ex_oob_b 1 s' = Panic.
Proof.
  pose proof two32_N as T32. intros Ls.
  unfold i_body, ex_oob_a, ex_oob_b. rewrite cols_new.
  apply (for_range_panic_mono 1); [|lia].
  rewrite for_range_S, for_range_0. cbn [mbind outcome_bind].
  unfold j_body. rewrite cols_new, for_range_S, for_range_0. cbn [mbind outcome_bind].
  unfold k_body. rewrite !cols_new.
  rewrite (flat_index_fits 1 two32 0) by (unfold usize_fits, usize_max; lia).
  cbn [mbind outcome_bind]. rewrite vec_index_ge by lia. reflexivity.
Qed.

(** C8, counterexample. Without overflow checks, with [i32] elements, the
    correctly sized [a = new(2^32 + 1, 1, [0; 2^32 + 1])] and
    [b = new(1, 2^32, [0; 2^32])]: [a.rows * b.cols = 2^64 + 2^32] wraps to
    [2^32], the result buffer has [2^32] elements, and row [i = 1] indexes
    [result[2^32]] out of bounds, so [multiply] panics. *)
Lemma multiply_release_out_of_bounds :
  length (data ex_oob_a) = rows ex_oob_a * cols ex_oob_a /\
  length (data ex_oob_b) = rows ex_oob_b * cols ex_oob_b /\
  usize_mul (prof := false) (rows ex_oob_a) (cols ex_oob_b) = Ok two32 /\
  1 * cols ex_oob_b + 0 = two32 /\
  multiply (prof := false) ex_oob_a ex_oob_b = Panic.
Proof.
  change (rows ex_oob_a) with (two32 + 1). change (cols ex_oob_b) with two32.
  split; [unfold ex_oob_a; rewrite data_new, cols_new, length_replicate; lia|].
  split; [unfold ex_oob_b; rewrite data_new, rows_new, length_replicate; lia|].
  split; [exact usize_mul_release_oob|split; [lia|]].
  rewrite multiply_unfold by reflexivity.
  change (rows ex_oob_a) with (two32 + 1). change (cols ex_oob_b) with two32.
  rewrite usize_mul_release_oob. cbn [mbind outcome_bind].
  rewrite vec_from_elem_fits
    by (unfold capacity_fits, isize_max; rewrite two32_N; cbn [t_size i32_num]; lia).
  cbn [mbind outcome_bind].
  rewrite (for_range_panic_mono 2); [reflexivity| |pose proof two32_N; lia].
  rewrite !for_range_S, for_range_0. cbn [mbind outcome_bind].
  destruct release_oob_row0 as (s' & E0 & L0).
  change (t_default (T := Z)) with 0%Z. rewrite E0. cbn [mbind outcome_bind].
  exact (release_oob_row1 s' L0).
Qed.

(** C8, amended. With [a.cols = b.rows] and correctly sized buffers (of at
    most [usize::MAX] elements): every index into an operand,
    [i * a.cols + k] into [a.data] and [k * b.cols + j] into [b.data], is
    computed without overflow and in bounds; when [a.rows * b.cols] fits in
    [usize] so is [i * b.cols + j] into the result buffer, and when the
    whole buffer fits [multiply] does not panic. With overflow checks, a
    buffer that does not fit makes the allocation panic before any access;
    without them, the wrapped length can leave the result index out of
    bounds (see the counterexample). *)
Theorem multiply_in_bounds {prof : BuildProfile} {T : Type} `{RustNum T} (a b : Matrix T)
    (Hdim : cols a = rows b)
    (Ha : length (data a) = rows a * cols a)
    (Hb : length (data b) = rows b * cols b)
    (La : usize_fits (length (data a)))
    (Lb : usize_fits (length (data b))) :
  (forall i j k, i < rows a -> j < cols b -> k < cols a ->
     (flat_index i (cols a) k = Ok (i * cols a + k) /\ i * cols a + k < length (data a)) /\
     (flat_index k (cols b) j = Ok (k * cols b + j) /\ k * cols b + j < length (data b)) /\
     (usize_fits (rows a * cols b) ->
        flat_index i (cols b) j = Ok (i * cols b + j) /\ i * cols b + j < rows a * cols b))
  /\ (result_fits a b -> multiply a b <> Panic)
  /\ (overflow_checks = true -> ~ result_fits a b ->
        (n ← usize_mul (rows a) (cols b); vec_from_elem (t_default (T := T)) n) = Panic /\
        multiply a b = Panic).
Proof.
  split; [|split].
  - intros i j k Hi Hj Hk.
    pose proof (flat_lt i (rows a) (cols a) k Hi Hk).
    pose proof (flat_lt k (rows b) (cols b) j ltac:(lia) Hj).
    pose proof (flat_lt i (rows a) (cols b) j Hi Hj).
    split; [|split].
    + split; [apply flat_index_fits; eapply usize_fits_le; [|exact La]; lia | lia].
    + split; [apply flat_index_fits; eapply usize_fits_le; [|exact Lb]; lia | lia].
    + intros F. split; [apply flat_index_fits; eapply usize_fits_le; [|exact F]; lia | lia].
  - intros F. rewrite multiply_ok by first [assumption | lia]. discriminate.
  - intros Hc Hf. pose proof (multiply_alloc_panic a b Hc Hf) as P.
    split; [exact P | exact (multiply_panic_of_alloc a b Hdim P)].
Qed.

Lemma multiply_in_bounds_witness :
  (forall i j k, i < rows ex_a -> j < cols ex_b -> k < cols ex_a ->
     (flat_index i (cols ex_a) k = Ok (i * cols ex_a + k) /\ i * cols ex_a + k < length (data ex_a)) /\
     (flat_index k (cols ex_b) j = Ok (k * cols ex_b + j) /\ k * cols ex_b + j < length (data ex_b)) /\
     (usize_fits (rows ex_a * cols ex_b) ->
        flat_index i (cols ex_b) j = Ok (i * cols ex_b + j) /\ i * cols ex_b + j < rows ex_a * cols ex_b))
  /\ (result_fits ex_a ex_b -> multiply ex_a ex_b <> Panic)
  /\ (overflow_checks = true -> ~ result_fits ex_a ex_b ->
        (n ← usize_mul (rows ex_a) (cols ex_b); vec_from_elem (t_default (T := Z)) n) = Panic /\
        multiply ex_a ex_b = Panic).
Proof.
  exact (multiply_in_bounds ex_a ex_b eq_refl eq_refl eq_refl
    ltac:(solve_fits) ltac:(solve_fits)).
Defined.

(** ** C9: an empty inner dimension *)

(** [usize::MAX] as a [nat], sealed like [two63]. *)
Lemma usize_max_sig : { n : nat | N.of_nat n = usize_max }.
Proof. exists (N.to_nat usize_max). apply N2Nat.id. Qed.
Definition usize_max_nat : nat := proj1_sig usize_max_sig.

Lemma usize_max_nat_N : N.of_nat usize_max_nat = usize_max.
Proof. exact (proj2_sig usize_max_sig). Qed.

(** C9, counterexample. With overflow checks, the correctly sized
    [new(usize::MAX, 0, [])] and [new(0, 2, [])] have [a.cols = b.rows = 0],
    yet [multiply] panics: [a.rows * b.cols] overflows [usize]. *)
Lemma multiply_empty_inner_overflow :
  multiply (prof := dev_profile) (new usize_max_nat 0 ([] : list Z)) (new 0 2 []) = Panic.
Proof.
  apply multiply_panic_of_alloc; [reflexivity|].
  apply multiply_alloc_panic; [reflexivity|].
  intros [F _]. revert F. unfold usize_fits. rewrite rows_new, cols_new.
  rewrite Nat2N.inj_mul, usize_max_nat_N. unfold usize_max. lia.
Qed.

(** C9, amended. When [a.cols = b.rows = 0] and the result buffer fits
    ([a.rows * b.cols] in [usize], its bytes within [isize::MAX]),
    [multiply a b] succeeds with shape [(a.rows, b.cols)] and every element
    equal to [T::default()]: the inner loop never runs, so no buffer is read
    (the operands' buffers need not even be empty). When it does not fit, a
    build with overflow checks panics. *)
Theorem multiply_empty_inner {prof : BuildProfile} {T : Type} `{RustNum T} (a b : Matrix T)
    (Hac : cols a = 0) (Hbr : rows b = 0) :
  (result_fits a b ->
   exists m, multiply a b = Ok m /\ rows m = rows a /\ cols m = cols b /\
     data m = replicate (rows a * cols b) t_default /\
     Forall (fun x => x = t_default) (data m))
  /\ (overflow_checks = true -> ~ result_fits a b -> multiply a b = Panic).
Proof.
  split.
  - intros [F C].
    exists (mkMatrix (rows a) (cols b) (replicate (rows a * cols b) t_default)).
    rewrite multiply_unfold by congruence.
    rewrite usize_mul_fits by exact F. cbn [mbind outcome_bind].
    rewrite vec_from_elem_fits by exact C. cbn [mbind outcome_bind].
    rewrite (for_range_id (rows a) (i_body a b)).
    + simpl. split; [reflexivity|split; [reflexivity|split; [reflexivity|split; [reflexivity|]]]].
      apply Forall_replicate. reflexivity.
    + intros i x. unfold i_body. apply for_range_id.
      intros j y. unfold j_body. rewrite Hac. reflexivity.
  - intros Hc Hf. apply multiply_panic_of_alloc; [congruence|].
    apply multiply_alloc_panic; assumption.
Qed.

Definition ex_wide : Matrix Z := new 2 0 [].
Definition ex_tall : Matrix Z := new 0 3 [].

Lemma multiply_empty_inner_witness :
  (result_fits ex_wide ex_tall ->
   exists m, multiply ex_wide ex_tall = Ok m /\ rows m = 2 /\ cols m = 3 /\
     data m = replicate 6 0%Z /\ Forall (fun x => x = 0%Z) (data m))
  /\ (overflow_checks = true -> ~ result_fits ex_wide ex_tall ->
        multiply ex_wide ex_tall = Panic).
Proof. exact (multiply_empty_inner ex_wide ex_tall eq_refl eq_refl). Defined.

(** ** The layout [Display] is compared against *)

(** Row [i] of the buffer: the [cols] elements from flat index [i * cols]. *)
Definition row_elems {T : Type} (m : Matrix T) (i : nat) : list T :=
  take (cols m) (drop (i * cols m) (data m)).

(** The rendered elements, grouped by row. *)
Definition display_groups {T : Type} `{RustDebug T} (m : Matrix T) : list (list string) :=
  (fun i => fmt_debug <$> row_elems m i) <$> seq 0 (rows m).

(** Brace-delimited groups joined by [", "], elements joined by [" "]. *)
Definition display_layout {T : Type} `{RustDebug T} (m : Matrix T) : string :=
  String.concat ", " ((fun g => "{" +:+ String.concat " " g +:+ "}") <$> display_groups m)%string.

(** ** String lemmas *)

Lemma str_app_cons c (s1 s2 : string) : String c s1 +:+ s2 = String c (s1 +:+ s2).
Proof. reflexivity. Qed.

Lemma str_app_assoc (s1 s2 s3 : string) : (s1 +:+ s2) +:+ s3 = s1 +:+ (s2 +:+ s3).
Proof. induction s1 as [|c s1 IH]; [reflexivity|]. rewrite !str_app_cons, IH. reflexivity. Qed.

Lemma str_app_nil_r (s : string) : s +:+ EmptyString = s.
Proof. induction s as [|c s IH]; [reflexivity|]. rewrite str_app_cons, IH. reflexivity. Qed.

Lemma concat_cons2 sep (y z : string) l :
  String.concat sep (y :: z :: l) = y +:+ sep +:+ String.concat sep (z :: l).
Proof. reflexivity. Qed.

Lemma concat_snoc sep (l : list string) x :
  l <> [] -> String.concat sep (l ++ [x]) = String.concat sep l +:+ sep +:+ x.
Proof.
  intros Hl. induction l as [|y l IH]; [congruence|].
  destruct l as [|z l].
  - reflexivity.
  - cbn [app] in *. rewrite !concat_cons2, IH by discriminate.
    rewrite !str_app_assoc. reflexivity.
Qed.

(** A loop that appends piece [f k] and, except after the last of [N]
    iterations, a separator. After [n] iterations it has written the
    first [n] pieces joined by the separator, plus a pending separator. *)
Lemma for_range_sep (N n : nat) (f : nat -> string) (sep : string)
    (body : nat -> string -> outcome string) (s0 : string) :
  n <= N ->
  (forall k s, k < N ->
     body k s = Ok (if decide (k < N - 1) then (s +:+ f k) +:+ sep else s +:+ f k)) ->
  for_range n body s0
  = Ok (s0 +:+ String.concat sep (f <$> seq 0 n) +:+ (if decide (0 < n < N) then sep else EmptyString)).
Proof.
  intros Hn Hbody. induction n as [|n IH].
  - rewrite for_range_0. f_equal. rewrite decide_False by lia.
    change (String.concat sep (f <$> seq 0 0)) with EmptyString.
    rewrite !str_app_nil_r. reflexivity.
  - rewrite for_range_S, IH by lia. cbn [mbind outcome_bind].
    rewrite Hbody by lia. f_equal.
    rewrite seq_S, fmap_app. change (f <$> [0 + n]) with [f n].
    destruct n as [|n'].
    + change (f <$> seq 0 0) with (@nil string).
      cbn [app String.concat]. rewrite str_app_nil_r.
      repeat case_decide; try lia;
        rewrite ?str_app_nil_r, ?str_app_assoc; reflexivity.
    + rewrite concat_snoc.
      2:{ intros E. apply (f_equal length) in E. rewrite length_fmap, length_seq in E. discriminate. }
      repeat case_decide; try lia;
        rewrite ?str_app_nil_r, ?str_app_assoc; reflexivity.
Qed.

Section Display.
Context {T : Type} `{RustDebug T} (m : Matrix T).
Hypothesis Hm : rows m * cols m <= length (data m).

(** The text the inner loop writes for column [j] of row [i]. *)
Definition cell_text (i j : nat) : string :=
  match data m !! (i * cols m + j) with
  | Some x => fmt_debug x
  | None => EmptyString
  end.

Definition group_text (i : nat) : string :=
  "{" +:+ String.concat " " (fmt_debug <$> row_elems m i) +:+ "}".

Lemma cells_row_elems i :
  i < rows m -> cell_text i <$> seq 0 (cols m) = fmt_debug <$> row_elems m i.
Proof.
  intros Hi. apply list_eq. intros j. rewrite !list_lookup_fmap.
  unfold row_elems. rewrite lookup_take, lookup_drop.
  case_decide.
  - rewrite lookup_seq_lt by lia. simpl. unfold cell_text.
    destruct (lookup_lt_is_Some_2 (data m) (i * cols m + j)) as [x Hx]; [nia|].
    rewrite Hx. reflexivity.
  - rewrite lookup_seq_ge by lia. reflexivity.
Qed.

Lemma display_ok : matrix_display m = Ok (display_layout m).
Proof.
  unfold matrix_display.
  rewrite (for_range_sep (rows m) (rows m) group_text ", " _ ""); [| lia |].
  - f_equal. rewrite decide_False by lia. rewrite str_app_nil_r.
    unfold display_layout, display_groups. rewrite <- list_fmap_compose. reflexivity.
  - intros i s Hi. cbv beta zeta.
    rewrite (for_range_sep (cols m) (cols m) (cell_text i) " " _ (s +:+ "{")); [| lia |].
    + cbn [mbind outcome_bind]. rewrite (decide_False (P := 0 < cols m < cols m)) by lia.
      rewrite str_app_nil_r, cells_row_elems by exact Hi.
      unfold group_text. rewrite !str_app_assoc. reflexivity.
    + intros j s' Hj. cbv beta zeta. unfold vec_index, cell_text.
      destruct (lookup_lt_is_Some_2 (data m) (i * cols m + j)) as [x Hx]; [nia|].
      rewrite Hx. reflexivity.
Qed.

Lemma display_groups_shape :
  length (display_groups m) = rows m /\
  (forall i g, display_groups m !! i = Some g -> length g = cols m).
Proof.
  unfold display_groups. split.
  - rewrite length_fmap, length_seq. reflexivity.
  - intros i g Hg. rewrite list_lookup_fmap in Hg.
    destruct (seq 0 (rows m) !! i) as [i'|] eqn:E; [|discriminate].
    apply lookup_seq in E as [-> Hi]. injection Hg as <-.
    unfold row_elems. rewrite length_fmap, length_take, length_drop. nia.
Qed.
End Display.

(** ** C3: the [Display] layout *)

(** C3. For a matrix whose buffer holds [rows * cols] elements, the
    [Display] rendering is [display_layout]: exactly [rows] groups, each
    delimited by braces and holding exactly [cols] rendered elements joined
    by single spaces, the groups joined by [", "], with no leading or
    trailing separator; and [new(2,3,[1..6])] displays as
    ["{1 2 3}, {4 5 6}"]. *)
Theorem display_rows_groups {T : Type} `{RustDebug T} (m : Matrix T)
    (Hm : length (data m) = rows m * cols m) :
  matrix_display m = Ok (display_layout m) /\
  length (display_groups m) = rows m /\
  (forall i g, display_groups m !! i = Some g -> length g = cols m) /\
  matrix_display ex_a = Ok "{1 2 3}, {4 5 6}"%string.
Proof.
  destruct (display_groups_shape m ltac:(lia)) as [Hlen Hgroups].
  split; [apply display_ok; lia|].
  split; [exact Hlen|split; [exact Hgroups|vm_compute; reflexivity]].
Qed.

Lemma display_rows_groups_witness :
  matrix_display ex_a = Ok (display_layout ex_a) /\
  length (display_groups ex_a) = rows ex_a /\
  (forall i g, display_groups ex_a !! i = Some g -> length g = cols ex_a) /\
  matrix_display ex_a = Ok "{1 2 3}, {4 5 6}"%string.
Proof. exact (display_rows_groups ex_a eq_refl). Defined.

(** ** [String] elements, whose [Debug] and [Display] differ *)

Definition dq : ascii := ascii_of_nat 34.
Definition backslash : ascii := ascii_of_nat 92.

Definition hex_digit (n : nat) : ascii :=
  ascii_of_nat (if n <? 10 then 48 + n else 87 + n).

(** [{:x}] of an ASCII code (below 128): lower-case, no leading zeros. *)
Definition hex_ascii_code (n : nat) : string :=
  if n <? 16 then String (hex_digit n) EmptyString
  else String (hex_digit (n / 16)) (String (hex_digit (n mod 16)) EmptyString).

(** [char::escape_debug] as [<str as Debug>] uses it, on ASCII characters:
    [\0 \t \n \r], an escaped backslash and double quote, [\u{..}] for the
    other control characters; printable characters are kept. Bytes of
    non-ASCII characters are passed through (they are not used below). *)
Definition escape_debug_ascii (c : ascii) : string :=
  let n := nat_of_ascii c in
  if n =? 0 then String backslash "0"
  else if n =? 9 then String backslash "t"
  else if n =? 10 then String backslash "n"
  else if n =? 13 then String backslash "r"
  else if n =? 92 then String backslash (String backslash EmptyString)
  else if n =? 34 then String backslash (String dq EmptyString)
  else if (n <? 32) || (n =? 127) then
    String backslash "u{" +:+ hex_ascii_code n +:+ "}"
  else String c EmptyString.

Fixpoint escape_debug_str (s : string) : string :=
  match s with
  | EmptyString => EmptyString
  | String c s' => escape_debug_ascii c +:+ escape_debug_str s'
  end.

(** [<String as Debug>]: the escaped text between double quotes. *)
#[global] Instance string_debug : RustDebug string := fun s =>
  String dq (escape_debug_str s +:+ String dq EmptyString).
(** [<String as Display>]: the text itself. *)
#[global] Instance string_display : RustDisplay string := fun s => s.

Definition ex_str : Matrix string := new 1 1 ["a"%string].

(** ** C4: elements are rendered with [{:?}] *)

(** C4, counterexample. For [String] elements the [Display] rendering of a
    matrix does not use the elements' [Display] form: [new(1, 1, ["a"])]
    does not display as [{a}] (it displays as [{"a"}]). *)
Lemma display_not_element_display :
  matrix_display ex_str <> Ok ("{" +:+ fmt_display "a" +:+ "}")%string.
Proof. vm_compute. intros E. discriminate E. Qed.

(** C4, amended. The [Display] rendering of a matrix formats each element
    with the element type's [Debug] ([{:?}]) representation: for every
    correctly sized matrix it is [display_layout], built from [fmt_debug];
    a [1 x 1] matrix of [x] displays as [{] ++ debug(x) ++ [}]; for
    [String] elements this puts the text in double quotes. *)
Theorem display_uses_element_debug {T : Type} `{RustDebug T} :
  (forall m : Matrix T, length (data m) = rows m * cols m ->
     matrix_display m = Ok (display_layout m))
  /\ (forall x : T, matrix_display (new 1 1 [x]) = Ok ("{" +:+ fmt_debug x +:+ "}")%string)
  /\ matrix_display ex_str
     = Ok ("{" +:+ String dq ("a" +:+ String dq EmptyString) +:+ "}")%string.
Proof.
  split; [|split].
  - intros m Hm. apply display_ok. lia.
  - intros x. reflexivity.
  - vm_compute. reflexivity.
Qed.

(** ** C5: [Debug] embeds [Display] *)

(** C5. For every matrix, the [Debug] rendering is
    ["Matrix(rows=" ++ rows ++ ", cols=" ++ cols ++ ", " ++ display ++ ")"],
    the [Display] rendering embedded verbatim (a panic of [Display]
    propagates); and the test's [new(2,3,[1..6])] renders as
    ["Matrix(rows=2, cols=3, {1 2 3}, {4 5 6})"]. *)
Theorem debug_embeds_display {T : Type} `{RustDisplay T} `{RustDebug T} (m : Matrix T) :
  matrix_debug m =
    match matrix_display m with
    | Ok d => Ok ("Matrix(rows=" +:+ pretty (rows m) +:+ ", cols=" +:+ pretty (cols m)
                  +:+ ", " +:+ d +:+ ")")%string
    | Err e => Err e
    | Panic => Panic
    end
  /\ matrix_debug ex_a = Ok "Matrix(rows=2, cols=3, {1 2 3}, {4 5 6})"%string.
Proof.
  split.
  - unfold matrix_debug. destruct (matrix_display m); reflexivity.
  - vm_compute. reflexivity.
Qed.

Example ex_string_debug_escapes :
  fmt_debug (String dq (String backslash EmptyString))
  = String dq (String backslash (String dq (String backslash (String backslash
      (String dq EmptyString))))).
Proof. vm_compute. reflexivity. Qed.

(** * Beyond the claims: edge behaviour of [multiply] and [Display] *)

Lemma for_range_ok_iter {St : Type} n (body : nat -> St -> outcome St) (s s' : St) :
  for_range n body s = Ok s' -> forall k, k < n -> exists x y, body k x = Ok y.
Proof.
  revert s'. induction n as [|n IH]; intros s' E k Hk; [lia|].
  rewrite for_range_S in E.
  destruct (for_range n body s) as [x| |] eqn:E'; cbn in E; try discriminate.
  destruct (decide (k = n)) as [->|Hne]; [eauto|]. apply (IH x); [reflexivity|lia].
Qed.

(** A successful [multiply] has read [a.data[i * a.cols + k]] and
    [b.data[k * b.cols + j]] for every [i], [j], [k] of its loops, at
    least wherever that index is computed without wrapping. *)
Lemma multiply_ok_reads {prof : BuildProfile} {T : Type} `{RustNum T} (a b m : Matrix T) :
  cols a = rows b -> multiply a b = Ok m ->
  forall i j k, i < rows a -> j < cols b -> k < cols a ->
    (usize_fits (i * cols a + k) -> i * cols a + k < length (data a)) /\
    (usize_fits (k * cols b + j) -> k * cols b + j < length (data b)).
Proof.
  intros Hd E i j k Hi Hj Hk. rewrite multiply_unfold in E by exact Hd.
  destruct (usize_mul (rows a) (cols b)) as [n| |]; cbn [mbind outcome_bind] in E; try discriminate.
  destruct (vec_from_elem t_default n) as [r0| |]; cbn [mbind outcome_bind] in E; try discriminate.
  destruct (for_range (rows a) (i_body a b) _) as [res| |] eqn:E1; cbn in E; try discriminate.
  destruct (for_range_ok_iter _ _ _ _ E1 i Hi) as (x1 & y1 & E2).
  unfold i_body in E2. destruct (for_range_ok_iter _ _ _ _ E2 j Hj) as (x2 & y2 & E3).
  unfold j_body in E3. destruct (for_range_ok_iter _ _ _ _ E3 k Hk) as (x3 & y3 & E4).
  destruct (k_body_ok a b _ _ _ _ _ E4) as (r & cur & p & x & q & y & _ & _ & Ep & Lx & Eq & Ly & _).
  split; intros F.
  - rewrite flat_index_fits in Ep by exact F. injection Ep as <-.
    eapply lookup_lt_Some; eassumption.
  - rewrite flat_index_fits in Eq by exact F. injection Eq as <-.
    eapply lookup_lt_Some; eassumption.
Qed.

(** X1. With matching inner dimensions, all three dimensions positive,
    buffers of at most [usize::MAX] elements and a result buffer that fits
    ([result_fits]), [multiply] panics exactly when one operand's buffer is
    shorter than [rows * cols]. *)
Theorem multiply_panics_iff_short {prof : BuildProfile} {T : Type} `{RustNum T} (a b : Matrix T)
    (Hd : cols a = rows b) (Hra : 0 < rows a) (Hca : 0 < cols a) (Hcb : 0 < cols b)
    (La : usize_fits (length (data a))) (Lb : usize_fits (length (data b)))
    (Hfit : result_fits a b) :
  multiply a b = Panic <->
  length (data a) < rows a * cols a \/ length (data b) < rows b * cols b.
Proof.
  split.
  - intros HP.
    destruct (decide (rows a * cols a <= length (data a))) as [Ha|Ha]; [|lia].
    destruct (decide (rows b * cols b <= length (data b))) as [Hb|Hb]; [|lia].
    rewrite multiply_ok in HP by first [assumption | lia]. discriminate.
  - intros Hshort. destruct (multiply a b) as [m|e|] eqn:E; [exfalso|exfalso|reflexivity].
    + destruct Hshort as [S|S].
      * (* the read of [a.data[len]], at [i = len / a.cols], [k = len mod a.cols] *)
        set (len := length (data a)) in *.
        pose proof (Nat.div_mod len (cols a) ltac:(lia)) as Dm.
        pose proof (Nat.mod_upper_bound len (cols a) ltac:(lia)) as Mb.
        assert (len / cols a < rows a) as Hi.
        { apply Nat.Div0.div_lt_upper_bound. lia. }
        destruct (multiply_ok_reads a b m Hd E (len / cols a) 0 (len mod cols a) Hi Hcb Mb)
          as [A _].
        assert (len / cols a * cols a + len mod cols a = len) as Hl by lia.
        rewrite Hl in A. specialize (A La). lia.
      * (* the read of [b.data[len]], at [k = len / b.cols], [j = len mod b.cols] *)
        set (len := length (data b)) in *.
        pose proof (Nat.div_mod len (cols b) ltac:(lia)) as Dm.
        pose proof (Nat.mod_upper_bound len (cols b) ltac:(lia)) as Mb.
        assert (len / cols b < cols a) as Hk.
        { apply Nat.Div0.div_lt_upper_bound. lia. }
        destruct (multiply_ok_reads a b m Hd E 0 (len mod cols b) (len / cols b) Hra Mb Hk)
          as [_ B].
        assert (len / cols b * cols b + len mod cols b = len) as Hl by lia.
        rewrite Hl in B. specialize (B Lb). lia.
    + exact (multiply_matching_no_err a b e Hd E).
Qed.

Definition ex_short : Matrix Z := new 2 2 [1; 2; 3]%Z.
Definition ex_sq : Matrix Z := new 2 2 [1; 2; 3; 4]%Z.

Lemma multiply_panics_iff_short_witness :
  multiply ex_short ex_sq = Panic.
Proof.
  apply (proj2 (multiply_panics_iff_short ex_short ex_sq eq_refl ltac:(vm_compute; lia)
    ltac:(vm_compute; lia) ltac:(vm_compute; lia) ltac:(solve_fits) ltac:(solve_fits)
    ltac:(solve_fits))).
  left. vm_compute. lia.
Defined.

(** [m] with its buffer cut to its first [rows * cols] elements. *)
Definition truncated {T : Type} (m : Matrix T) : Matrix T :=
  new (rows m) (cols m) (take (rows m * cols m) (data m)).

Lemma nth_take_lt {T : Type} (l : list T) n k (d : T) :
  k < n -> nth k (take n l) d = nth k l d.
Proof. intros Hk. rewrite !nth_lookup, lookup_take_lt by exact Hk. reflexivity. Qed.

Lemma element_sum_truncated {T : Type} `{RustNum T} (a b : Matrix T) i j :
  cols a = rows b -> i < rows a -> j < cols b ->
  element_sum (truncated a) (truncated b) i j = element_sum a b i j.
Proof.
  intros Hd Hi Hj. unfold element_sum. simpl.
  assert (forall n acc, n <= cols a ->
    dot_upto (truncated a) (truncated b) i j n acc = dot_upto a b i j n acc) as G.
  { intros n. induction n as [|n IH]; intros acc Hn; [reflexivity|].
    unfold dot_upto in *. rewrite seq_S, !fold_left_app, IH by lia. simpl.
    rewrite !nth_take_lt by nia. reflexivity. }
  apply G. lia.
Qed.

(** X2. With [a.cols = b.rows], buffers holding at least [rows * cols] (and
    at most [usize::MAX]) elements, and a result buffer that fits,
    [multiply] succeeds, and its result is the same as for the operands
    with their buffers cut to exactly [rows * cols] elements: the trailing
    elements are never read. *)
Theorem multiply_ignores_trailing_data {prof : BuildProfile} {T : Type} `{RustNum T}
    (a b : Matrix T)
    (Hd : cols a = rows b)
    (Ha : rows a * cols a <= length (data a))
    (Hb : rows b * cols b <= length (data b))
    (La : usize_fits (length (data a))) (Lb : usize_fits (length (data b)))
    (Hfit : result_fits a b) :
  (exists m, multiply a b = Ok m) /\
  multiply a b = multiply (truncated a) (truncated b).
Proof.
  assert (Ha' : rows (truncated a) * cols (truncated a) <= length (data (truncated a))).
  { simpl. rewrite length_take. lia. }
  assert (Hb' : rows (truncated b) * cols (truncated b) <= length (data (truncated b))).
  { simpl. rewrite length_take. lia. }
  assert (La' : usize_fits (length (data (truncated a)))).
  { eapply usize_fits_le; [|exact La]. simpl. rewrite length_take. lia. }
  assert (Lb' : usize_fits (length (data (truncated b)))).
  { eapply usize_fits_le; [|exact Lb]. simpl. rewrite length_take. lia. }
  assert (Hfit' : result_fits (truncated a) (truncated b)) by exact Hfit.
  rewrite (multiply_ok a b) by first [assumption | lia].
  split; [eexists; reflexivity|].
  rewrite (multiply_ok (truncated a) (truncated b)) by first [assumption | simpl; lia].
  simpl. f_equal. f_equal.
  unfold rows_prefix. f_equal. apply list_fmap_ext. intros i i' Hi.
  apply lookup_seq in Hi as [-> Hi]. simpl.
  unfold row_prefix. apply list_fmap_ext. intros j j' Hj.
  apply lookup_seq in Hj as [-> Hj]. simpl.
  symmetry. apply element_sum_truncated; lia.
Qed.

Definition ex_long : Matrix Z := new 2 2 [1; 2; 3; 4; 5; 6]%Z.

Lemma multiply_ignores_trailing_data_witness :
  (exists m, multiply ex_long ex_sq = Ok m) /\
  multiply ex_long ex_sq = multiply (truncated ex_long) (truncated ex_sq).
Proof.
  exact (multiply_ignores_trailing_data ex_long ex_sq eq_refl
    ltac:(vm_compute; lia) ltac:(vm_compute; lia)
    ltac:(solve_fits) ltac:(solve_fits) ltac:(solve_fits)).
Defined.

(** X3. With matching inner dimensions and [a.rows = 0] or [b.cols = 0],
    [multiply] reads neither buffer and returns an empty matrix of shape
    [(a.rows, b.cols)], whatever the buffers hold. *)
Theorem multiply_empty_outer {prof : BuildProfile} {T : Type} `{RustNum T} (a b : Matrix T)
    (Hd : cols a = rows b) (H0 : rows a = 0 \/ cols b = 0) :
  multiply a b = Ok (mkMatrix (rows a) (cols b) []).
Proof.
  rewrite multiply_unfold by exact Hd.
  assert (rows a * cols b = 0) as Hz by lia.
  rewrite usize_mul_fits by (unfold usize_fits; rewrite Hz; unfold usize_max; lia).
  rewrite Hz. cbn [mbind outcome_bind].
  rewrite vec_from_elem_fits by (unfold capacity_fits, isize_max; lia).
  cbn [mbind outcome_bind replicate].
  destruct H0 as [Hr|Hc].
  - rewrite Hr. reflexivity.
  - rewrite (for_range_id (rows a) (i_body a b)); [reflexivity|].
    intros i x. unfold i_body. rewrite Hc. reflexivity.
Qed.

Lemma multiply_empty_outer_witness :
  multiply (new 0 3 [7; 8]%Z) (new 3 2 [1; 2; 3; 4; 5; 6]%Z) = Ok (mkMatrix 0 2 []).
Proof. exact (multiply_empty_outer (new 0 3 [7; 8]%Z) (new 3 2 [1; 2; 3; 4; 5; 6]%Z)
  eq_refl (or_introl eq_refl)). Defined.

(** X4. The result [m] of a successful [multiply a b] whose length
    [a.rows * b.cols] did not wrap (always the case with overflow checks)
    is a well-formed matrix: it displays without panicking (as
    [display_layout]), and it can itself be multiplied by any [c] with
    [c.rows = b.cols], a large enough buffer of at most [usize::MAX]
    elements and a result buffer for [a.rows * c.cols] that fits, giving a
    matrix of shape [(a.rows, c.cols)]. *)
Theorem multiply_result_composes {prof : BuildProfile} {T : Type} `{RustNum T} `{RustDebug T}
    (a b m : Matrix T) (E : multiply a b = Ok m) (F : usize_fits (rows a * cols b)) :
  matrix_display m = Ok (display_layout m) /\
  forall c : Matrix T, cols b = rows c -> rows c * cols c <= length (data c) ->
    usize_fits (length (data c)) -> result_fits a c ->
    exists m2, multiply m c = Ok m2 /\ rows m2 = rows a /\ cols m2 = cols c.
Proof.
  destruct (multiply_ok_inv a b m E) as (Hr & Hc & Hl & _).
  destruct (usize_mul_ok _ _ _ Hl) as [Eq _]. specialize (Eq F).
  split.
  - apply display_ok. rewrite Hr, Hc, Eq. lia.
  - intros c Hbc Hcl Lc Hfit. eexists. split.
    + apply multiply_ok;
        [congruence | rewrite Hr, Hc, Eq; lia | exact Hcl
        | rewrite Eq; exact F | exact Lc | unfold result_fits; rewrite Hr; exact Hfit].
    + simpl. split; [exact Hr | reflexivity].
Qed.

Lemma multiply_result_composes_witness :
  exists m, multiply ex_a ex_b = Ok m /\
    matrix_display m = Ok (display_layout m) /\
    exists m2, multiply m ex_sq = Ok m2 /\ rows m2 = 2 /\ cols m2 = 2.
Proof.
  destruct (multiply ex_a ex_b) as [m| |] eqn:E; [|discriminate|discriminate].
  exists m. split; [reflexivity|].
  destruct (multiply_result_composes ex_a ex_b m E ltac:(solve_fits)) as [D C].
  split; [exact D|]. apply C; [vm_compute; lia | vm_compute; lia | solve_fits | solve_fits].
Defined.

Lemma fmap_const_replicate {A B : Type} (x : B) (l : list A) :
  (fun _ => x) <$> l = replicate (length l) x.
Proof. induction l as [|y l IH]; [reflexivity|]. rewrite fmap_cons, IH. reflexivity. Qed.

(** X5. [Display] of a matrix with no rows is the empty string, and of a
    matrix with no columns is [rows] empty groups ["{}"] joined by [", "];
    in both cases no element is read, whatever the buffer holds. *)
Theorem display_degenerate {T : Type} `{RustDebug T} (m : Matrix T) :
  (rows m = 0 -> matrix_display m = Ok "") /\
  (cols m = 0 -> matrix_display m = Ok (String.concat ", " (replicate (rows m) "{}"))%string).
Proof.
  split.
  - intros Hr. unfold matrix_display. rewrite Hr. reflexivity.
  - intros Hc. rewrite display_ok by (rewrite Hc; lia).
    f_equal. unfold display_layout, display_groups.
    rewrite (list_fmap_ext _ (fun _ : nat => @nil string) (seq 0 (rows m))).
    + rewrite (fmap_const_replicate (@nil string)), fmap_replicate, length_seq. reflexivity.
    + intros i x _. unfold row_elems. rewrite Hc. reflexivity.
Qed.

Lemma display_no_err {T : Type} `{RustDebug T} (m : Matrix T) e :
  matrix_display m <> Err e.
Proof.
  unfold matrix_display. apply for_range_no_err. intros i s e'. cbv beta zeta.
  destruct (for_range (cols m) _ _) as [x|e2|] eqn:Hfr; cbn.
  - unfold mret, outcome_ret. discriminate.
  - intros _. refine (for_range_no_err _ _ _ e2 _ Hfr).
    intros j s' e3. cbv beta zeta. unfold vec_index, mbind, outcome_bind, mret, outcome_ret.
    repeat case_match; discriminate.
  - discriminate.
Qed.

(** X6. For a matrix with at least one row and one column, [Display]
    panics exactly when the buffer holds fewer than [rows * cols]
    elements. *)
Theorem display_panics_iff_short {T : Type} `{RustDebug T} (m : Matrix T)
    (Hr : 0 < rows m) (Hc : 0 < cols m) :
  matrix_display m = Panic <-> length (data m) < rows m * cols m.
Proof.
  split.
  - intros HP. destruct (decide (rows m * cols m <= length (data m))) as [L|L]; [|lia].
    rewrite display_ok in HP by exact L. discriminate.
  - intros Hshort. destruct (matrix_display m) as [s|e|] eqn:E; [exfalso|exfalso|reflexivity].
    + unfold matrix_display in E.
      destruct (for_range_ok_iter _ _ _ _ E (rows m - 1) ltac:(lia)) as (x & y & E1).
      cbv beta zeta in E1.
      destruct (for_range (cols m) _ _) as [z| |] eqn:E2; cbn in E1; try discriminate.
      destruct (for_range_ok_iter _ _ _ _ E2 (cols m - 1) ltac:(lia)) as (x' & y' & E3).
      cbv beta zeta in E3. unfold vec_index in E3.
      destruct (data m !! _) eqn:L; cbn in E3; [|discriminate].
      apply lookup_lt_Some in L. nia.
    + exact (display_no_err m e E).
Qed.

Lemma display_panics_iff_short_witness : matrix_display ex_short = Panic.
Proof.
  apply (proj2 (display_panics_iff_short ex_short
    ltac:(vm_compute; lia) ltac:(vm_compute; lia))).
  vm_compute. lia.
Defined.

(** * [src/examples/thread1.rs]: messages and the consumer's output

    The threads and the channel are not embedded; what is embedded is what
    the consumer thread does with the messages it receives: its [println!]
    of each one. *)
Module Thread1.

Definition NUM_PRODUCERS : nat := 4.

(** [#[derive(Debug)] struct Msg { idx: usize, value: usize }] *)
Record Msg := mkMsg { idx : nat; value : nat }.

(** [Msg::new] *)
Definition Msg_new (idx value : nat) : Msg := mkMsg idx value.

(** The derived [Debug] of [Msg]: [Msg { idx: <idx>, value: <value> }]. *)
Definition msg_debug (m : Msg) : string :=
  "Msg { idx: " +:+ pretty (idx m) +:+ ", value: " +:+ pretty (value m) +:+ " }".

Definition newline : string := String (ascii_of_nat 10) EmptyString.

(** [println!("Consumer: {:?}", msg)] *)
Definition consumer_line (m : Msg) : string :=
  "Consumer: " +:+ msg_debug m +:+ newline.

(** The consumer thread's [for msg in rx { println!(..) }], on the
    messages received so far, in order. *)
Fixpoint consumer_output (received : list Msg) : string :=
  match received with
  | [] => EmptyString
  | m :: rest => consumer_line m +:+ consumer_output rest
  end.

Example consumer_line_ex :
  consumer_output [Msg_new 3 42] = "Consumer: Msg { idx: 3, value: 42 }" +:+ newline.
Proof. reflexivity. Qed.

(** X7. The consumer's output determines the messages it received: two
    different received sequences never print the same text. *)
Theorem consumer_output_inj (l1 l2 : list Msg) :
  consumer_output l1 = consumer_output l2 -> l1 = l2.
Proof.
  revert l2. induction l1 as [|[i1 v1] l1 IH]; intros [|[i2 v2] l2] E.
  - reflexivity.
  - discriminate E.
  - discriminate E.
  - simpl in E. unfold consumer_line, msg_debug in E. simpl idx in E. simpl value in E.
    rewrite !str_app_assoc in E.
    apply (str_app_inv_l "Consumer: Msg { idx: ") in E.
    apply digits_split in E as [Ei E]; try apply all_digits_pretty_nat; [|reflexivity].
    apply (str_app_inv_l " value: ") in E.
    apply digits_split in E as [Ev E]; try apply all_digits_pretty_nat; [|reflexivity].
    apply (str_app_inv_l ("}" +:+ newline)) in E.
    apply (inj pretty) in Ei, Ev. subst. f_equal. apply IH. exact E.
Qed.

Lemma consumer_output_inj_witness : [Msg_new 1 20; Msg_new 3 4] = [Msg_new 1 20; Msg_new 3 4].
Proof. exact (consumer_output_inj [Msg_new 1 20; Msg_new 3 4] [Msg_new 1 20; Msg_new 3 4] eq_refl). Defined.

End Thread1.
